(** * djcelery_transactions: deferred Celery tasks and their resolution

    A shallow embedding of [djcelery_transactions.py]: the thread-local
    [task_queue], [PostCommitTask.apply_async] and the two hooks of
    [PostCommitTaskMiddleware], followed by the properties of the
    deferral protocol. *)

From stdpp Require Import gmap strings list.

(** ** Python values *)

(** The objects that travel through the module as positional arguments,
    keyword values and responses.  The module inspects one of them only:
    the truth value of [after_transaction]. *)
Inductive value :=
| VNone
| VBool (b : bool)
| VInt (n : Z)
| VStr (s : string).

(** Python truth value testing. *)
Definition truthy (v : value) : bool :=
  match v with
  | VNone => false
  | VBool b => b
  | VInt n => negb (n =? 0)%Z
  | VStr s => negb (String.eqb s "")
  end.

(** [a and b]: the first operand when it is false, otherwise the second. *)
Definition py_and (a b : value) : value := if truthy a then b else a.

(** The exceptions the module can meet: a missing attribute on the
    thread-local object, a keyword given twice in a call, and whatever
    the Celery transport raises. *)
Inductive exn :=
| AttributeError
| TypeError
| TransportError (msg : string).

(** A Python call either returns or raises. *)
Inductive outcome (A : Type) :=
| Returned (a : A)
| Raised (e : exn).
Arguments Returned {A} a.
Arguments Raised {A} e.

(** ** Data model *)

(** The tuple [(cls, args, kwargs)] stored in the queue.  The class is
    named by its task name; [apply_async] is taken to be the one of
    [PostCommitTask] on every such class. *)
Record WorkItem := mkItem {
  item_cls : string;
  item_args : list value;
  item_kwargs : gmap string value
}.

(** The state the module reads and writes.
    - [task_queue]: the attribute [task_queue] of [_thread_data], a
      [threading.local]; a thread that is no key of the map has not set
      the attribute.
    - [managed]: the threads in which [transaction.is_managed()] holds.
    - [sent]: the calls received by Celery's [Task.apply_async], oldest
      first. *)
Record World := mkWorld {
  task_queue : gmap nat (list WorkItem);
  managed : gset nat;
  sent : list WorkItem
}.

Definition with_queue (t : nat) (q : list WorkItem) (w : World) : World :=
  {| task_queue := <[t := q]> (task_queue w);
     managed := managed w;
     sent := sent w |}.

Definition with_sent (l : list WorkItem) (w : World) : World :=
  {| task_queue := task_queue w;
     managed := managed w;
     sent := l |}.

(** [transaction.is_managed()] in thread [t]. *)
Definition is_managed (t : nat) (w : World) : bool :=
  bool_decide (t ∈ managed w).

(** Lines 9-10: the module is imported by thread [t]; [task_queue] is
    set on the thread-local object in the importing thread. *)
Definition module_import (t : nat) (mg : gset nat) : World :=
  {| task_queue := {[ t := [] ]}; managed := mg; sent := [] |}.

(** Stateful Python code: a world in, a world and an outcome out.  A
    raise keeps the effects that came before it. *)
Definition M (A : Type) : Type := World → World * outcome A.

Definition ret {A} (a : A) : M A := λ w, (w, Returned a).

Definition bind {A B} (m : M A) (k : A → M B) : M B :=
  λ w, match m w with
       | (w', Returned a) => k a w'
       | (w', Raised e) => (w', Raised e)
       end.

(** [d.pop(key, default)]. *)
Definition dict_pop (key : string) (dflt : value) (d : gmap string value)
  : value * gmap string value :=
  (default dflt (d !! key), delete key d).

(** [l.pop()]: the last element and the list without it; [None] on the
    empty list, where Python raises [IndexError]. *)
Fixpoint list_pop {A} (l : list A) : option (list A * A) :=
  match l with
  | [] => None
  | x :: l' =>
      match list_pop l' with
      | None => Some ([], x)
      | Some (r, y) => Some (x :: r, y)
      end
  end.

(** [f(key=v, **d)]: the keywords the callee receives, or [TypeError]
    when [d] has [key] already. *)
Definition call_keywords (key : string) (v : value) (d : gmap string value)
  : outcome (gmap string value) :=
  match d !! key with
  | Some _ => Raised TypeError
  | None => Returned (<[key := v]> d)
  end.

Definition after_transaction_key : string := "after_transaction".

(** The value [apply_async] reads for [after_transaction]: the keyword
    when given, [True] otherwise. *)
Definition after_transaction_of (kwargs : gmap string value) : value :=
  default (VBool true) (kwargs !! after_transaction_key).

(** An item whose keywords have no [after_transaction]. *)
Definition stripped (it : WorkItem) : Prop :=
  item_kwargs it !! after_transaction_key = None.

(** Every queued item and every call the transport has seen is
    [stripped]. *)
Definition stripped_world (w : World) : Prop :=
  Forall stripped (sent w) ∧
  map_Forall (λ _ q, Forall stripped q) (task_queue w).

#[global] Instance stripped_dec it : Decision (stripped it).
Proof. unfold stripped. apply _. Defined.

#[global] Instance stripped_world_dec w : Decision (stripped_world w).
Proof. unfold stripped_world. apply _. Defined.

Definition is_returned {A} (o : outcome A) : Prop :=
  match o with Returned _ => True | Raised _ => False end.

(** The items and worlds of the examples: thread 0 has imported the
    module and is inside a managed transaction; thread 1 has not touched
    the thread-local object. *)
Definition itemX : WorkItem := mkItem "X" [VInt 1] ∅.
Definition itemY : WorkItem := mkItem "Y" [VInt 2] ∅.

Definition world_fresh : World := module_import 0 {[ 0 ]}.

Definition world_two : World :=
  {| task_queue := {[ 0 := [itemX; itemY] ]}; managed := {[ 0 ]}; sent := [] |}.

Definition kwargs_countdown : gmap string value :=
  {[ "countdown" := VInt 5 ]}.

(** Two transports for the examples: one that accepts every call and one
    that refuses the task named [broken]. *)
Definition transport_ok (it : WorkItem) : outcome value :=
  Returned (VStr (item_cls it)).

Definition transport_flaky (it : WorkItem) : outcome value :=
  if String.eqb (item_cls it) "broken"
  then Raised (TransportError "connection refused")
  else Returned (VStr (item_cls it)).

(** A world in which threads 0 and 1 are both inside a managed
    transaction and only thread 0 has imported the module. *)
Definition world_shared : World := module_import 0 {[ 0; 1 ]}.

Definition itemBroken : WorkItem := mkItem "broken" [] ∅.

Definition world_broken : World :=
  {| task_queue := {[ 0 := [itemX; itemBroken; itemY] ]};
     managed := {[ 0 ]};
     sent := [] |}.

(** The item [apply_async] builds from a call: the keywords without
    [after_transaction]. *)
Definition strip (c : WorkItem) : WorkItem :=
  mkItem (item_cls c) (item_args c)
    (delete after_transaction_key (item_kwargs c)).

(** Line 66: [task = partial(base_task, base=PostCommitTask)].  A call
    of a [functools.partial] object passes the frozen keywords updated
    with the keywords of the call; here no positional argument is
    frozen.  [base_task] is Celery's decorator. *)
Definition task_keywords (kwargs : gmap string value) : gmap string value :=
  kwargs ∪ {[ "base" := VStr "PostCommitTask" ]}.

Definition task {R} (base_task : list value → gmap string value → R)
    (args : list value) (kwargs : gmap string value) : R :=
  base_task args (task_keywords kwargs).

Section PostCommit.

(** Celery's [Task.apply_async], the dispatch capability: what it answers
    to a call.  The call itself is recorded in [sent]. *)
Variable Task_apply_async : WorkItem → outcome value.

(** The call of [apply_async] on the base class, with the positional
    and keyword arguments unpacked from the item. *)
Definition super_apply_async (it : WorkItem) : M value :=
  λ w, (with_sent (sent w ++ [it]) w, Task_apply_async it).

(** [_thread_data.task_queue.append(item)]. *)
Definition queue_append (t : nat) (it : WorkItem) : M unit :=
  λ w, match task_queue w !! t with
       | None => (w, Raised AttributeError)
       | Some q => (with_queue t (q ++ [it]) w, Returned tt)
       end.

(** [PostCommitTask.apply_async], called in thread [t]. *)
Definition apply_async (t : nat) (cls : string) (args : list value)
    (kwargs : gmap string value) : M value :=
  λ w,
    let '(after_transaction, kwargs) :=
      dict_pop after_transaction_key (VBool true) kwargs in
    let defer_task := py_and after_transaction (VBool (is_managed t w)) in
    if truthy defer_task
    then bind (queue_append t (mkItem cls args kwargs)) (λ _, ret VNone) w
    else super_apply_async (mkItem cls args kwargs) w.

(** [PostCommitTaskMiddleware.process_exception]. *)
Definition process_exception (t : nat) : M value :=
  λ w, (with_queue t [] w, Returned VNone).

(** One turn of the [while] of [process_response]: the test, the [pop]
    and the call.  [Returned true] asks for another turn. *)
Definition drain_turn (t : nat) : M bool :=
  λ w, match task_queue w !! t with
       | None => (w, Raised AttributeError)
       | Some q =>
           match list_pop q with
           | None => (w, Returned false)
           | Some (q', it) =>
               let w1 := with_queue t q' w in
               match call_keywords after_transaction_key (VBool false)
                       (item_kwargs it) with
               | Raised e => (w1, Raised e)
               | Returned kw =>
                   bind (apply_async t (item_cls it) (item_args it) kw)
                        (λ _, ret true) w1
               end
           end
       end.

(** The [while] loop; [None] when the fuel is spent before it ends. *)
Fixpoint drain (fuel : nat) (t : nat) (w : World)
  : option (World * outcome unit) :=
  match fuel with
  | 0 => None
  | S fuel' =>
      match drain_turn t w with
      | (w', Raised e) => Some (w', Raised e)
      | (w', Returned false) => Some (w', Returned tt)
      | (w', Returned true) => drain fuel' t w'
      end
  end.

(** [PostCommitTaskMiddleware.process_response]. *)
Definition process_response (fuel : nat) (t : nat) (response : value)
    (w : World) : option (World * outcome value) :=
  match drain fuel t w with
  | None => None
  | Some (w', Raised e) => Some (w', Raised e)
  | Some (w', Returned _) => Some (w', Returned response)
  end.

(** A view body that submits the calls one after the other; a raise
    ends it. *)
Fixpoint submit_each (t : nat) (calls : list WorkItem) : M unit :=
  match calls with
  | [] => ret tt
  | c :: calls' =>
      bind (apply_async t (item_cls c) (item_args c) (item_kwargs c))
           (λ _, submit_each t calls')
  end.

(** ** Lists and dictionaries *)

Lemma list_pop_app {A} (q : list A) (x : A) : list_pop (q ++ [x]) = Some (q, x).
Proof.
  induction q as [|y q IH]; simpl; [done|].
  by rewrite IH.
Qed.

Lemma list_pop_None {A} (l : list A) : list_pop l = None → l = [].
Proof.
  destruct l as [|x l]; simpl; [done|].
  by destruct (list_pop l) as [[r y]|].
Qed.

Lemma list_pop_Some {A} (l q : list A) (x : A) :
  list_pop l = Some (q, x) → l = q ++ [x].
Proof.
  revert q; induction l as [|y l IH]; intros q; simpl; [done|].
  destruct (list_pop l) as [[r z]|] eqn:E.
  - intros [= <- <-]. by rewrite (IH r eq_refl).
  - intros [= <- <-]. by rewrite (list_pop_None l E).
Qed.

Lemma truthy_py_and (a : value) (b : bool) :
  truthy (py_and a (VBool b)) = truthy a && b.
Proof. unfold py_and. by destruct (truthy a) eqn:E; simpl. Qed.

Lemma call_keywords_stripped (v : value) (it : WorkItem) :
  stripped it →
  call_keywords after_transaction_key v (item_kwargs it)
  = Returned (<[after_transaction_key := v]> (item_kwargs it)).
Proof. unfold stripped, call_keywords. by intros ->. Qed.

Lemma with_queue_twice t q q' w :
  with_queue t q (with_queue t q' w) = with_queue t q w.
Proof. unfold with_queue; simpl. by rewrite insert_insert_eq. Qed.

(** ** [apply_async] *)

Lemma apply_async_defer_eq t cls args kwargs w q :
  truthy (after_transaction_of kwargs) = true →
  is_managed t w = true →
  task_queue w !! t = Some q →
  apply_async t cls args kwargs w
  = (with_queue t (q ++ [mkItem cls args (delete after_transaction_key kwargs)]) w,
     Returned VNone).
Proof.
  intros Ha Hm Hq. unfold apply_async, dict_pop.
  fold (after_transaction_of kwargs).
  rewrite truthy_py_and, Ha, Hm; simpl.
  unfold bind, queue_append. by rewrite Hq.
Qed.

Lemma apply_async_immediate_eq t cls args kwargs w :
  truthy (after_transaction_of kwargs) && is_managed t w = false →
  apply_async t cls args kwargs w
  = super_apply_async (mkItem cls args (delete after_transaction_key kwargs)) w.
Proof.
  intros H. unfold apply_async, dict_pop.
  fold (after_transaction_of kwargs).
  by rewrite truthy_py_and, H.
Qed.

(** The call made by the drain: with [after_transaction=False] added to
    the keywords of a stripped item, the item goes to the transport as
    it was queued, whatever [is_managed] says. *)
Lemma apply_async_forced t it w :
  stripped it →
  apply_async t (item_cls it) (item_args it)
    (<[after_transaction_key := VBool false]> (item_kwargs it)) w
  = super_apply_async it w.
Proof.
  intros Hs. rewrite apply_async_immediate_eq.
  - rewrite delete_insert_id by exact Hs. by destruct it.
  - unfold after_transaction_of. by rewrite lookup_insert_eq.
Qed.

(** [apply_async] with a false [after_transaction] leaves every queue
    alone. *)
Lemma apply_async_false_queue t cls args kwargs w :
  truthy (after_transaction_of kwargs) = false →
  task_queue (apply_async t cls args kwargs w).1 = task_queue w.
Proof.
  intros H. rewrite apply_async_immediate_eq; [done|]. by rewrite H.
Qed.

(** Deferral in a thread that has its queue: a submission whose
    [after_transaction] (true when absent) is true, made while the
    transaction is managed, appends the item at the end of that thread's
    queue, gives the transport no call and returns [None]. *)
Lemma apply_async_defers t cls args kwargs w q :
  truthy (after_transaction_of kwargs) = true →
  is_managed t w = true →
  task_queue w !! t = Some q →
  let it := mkItem cls args (delete after_transaction_key kwargs) in
  let r := apply_async t cls args kwargs w in
  task_queue r.1 = <[t := q ++ [it]]> (task_queue w) ∧
  sent r.1 = sent w ∧
  r.2 = Returned VNone.
Proof.
  intros Ha Hm Hq it r. subst r it.
  by rewrite (apply_async_defer_eq _ _ _ _ _ q).
Qed.

(** C3: a submission whose [after_transaction] is false, or made while
    no transaction is managed: the transport receives exactly one call,
    the item itself; no queue changes; and the caller gets the
    transport's own outcome. *)
Theorem apply_async_immediate t cls args kwargs w :
  truthy (after_transaction_of kwargs) = false ∨ is_managed t w = false →
  let it := mkItem cls args (delete after_transaction_key kwargs) in
  let r := apply_async t cls args kwargs w in
  sent r.1 = sent w ++ [it] ∧
  task_queue r.1 = task_queue w ∧
  r.2 = Task_apply_async it.
Proof.
  intros H it r. subst r it.
  rewrite apply_async_immediate_eq; [done|].
  destruct H as [-> | ->]; [done|apply andb_false_r].
Qed.

(** ** The drain *)

(** A turn on a queue that ends with a stripped item. *)
Lemma drain_turn_stripped t w q it :
  task_queue w !! t = Some (q ++ [it]) →
  stripped it →
  drain_turn t w
  = (with_sent (sent w ++ [it]) (with_queue t q w),
     match Task_apply_async it with
     | Returned _ => Returned true
     | Raised e => Raised e
     end).
Proof.
  intros Hq Hs. unfold drain_turn.
  rewrite Hq, list_pop_app, (call_keywords_stripped _ _ Hs).
  unfold bind. rewrite (apply_async_forced _ _ _ Hs).
  unfold super_apply_async; simpl. by destruct (Task_apply_async it).
Qed.

Lemma drain_turn_empty t w :
  task_queue w !! t = Some [] → drain_turn t w = (w, Returned false).
Proof. intros Hq. unfold drain_turn. by rewrite Hq. Qed.

Lemma drain_turn_unset t w :
  task_queue w !! t = None → drain_turn t w = (w, Raised AttributeError).
Proof. intros Hq. unfold drain_turn. by rewrite Hq. Qed.

(** Whatever a turn does with the item it popped, the queue of the
    thread is the popped queue afterwards. *)
Lemma drain_turn_queue t w q it :
  task_queue w !! t = Some (q ++ [it]) →
  task_queue (drain_turn t w).1 !! t = Some q.
Proof.
  intros Hq. unfold drain_turn. rewrite Hq, list_pop_app.
  unfold call_keywords.
  destruct (item_kwargs it !! after_transaction_key) eqn:Hk; simpl.
  { apply lookup_insert_eq. }
  unfold bind.
  pose proof (apply_async_false_queue t (item_cls it) (item_args it)
    (<[after_transaction_key := VBool false]> (item_kwargs it))
    (with_queue t q w)) as Hf.
  destruct (apply_async _ _ _ _ _) as [w' [v|e]]; simpl in *;
    (rewrite Hf; [apply lookup_insert_eq|]);
    unfold after_transaction_of; by rewrite lookup_insert_eq.
Qed.

(** A turn that asks for another one has popped an item. *)
Lemma drain_turn_continue t w w' :
  drain_turn t w = (w', Returned true) →
  ∃ q it, task_queue w !! t = Some (q ++ [it]).
Proof.
  unfold drain_turn.
  destruct (task_queue w !! t) as [q|] eqn:Hq; [|done].
  destruct (list_pop q) as [[q' it]|] eqn:Hp; [|done].
  intros _. exists q', it. by rewrite (list_pop_Some _ _ _ Hp).
Qed.

(** A turn that ends the loop normally found the queue empty and did
    nothing. *)
Lemma drain_turn_exit t w w' :
  drain_turn t w = (w', Returned false) →
  w' = w ∧ task_queue w !! t = Some [].
Proof.
  unfold drain_turn.
  destruct (task_queue w !! t) as [q|] eqn:Hq; [|done].
  destruct (list_pop q) as [[q' it]|] eqn:Hp.
  - destruct (call_keywords _ _ _); [|done].
    unfold bind. by destruct (apply_async _ _ _ _ _) as [? [?|?]].
  - intros [= <-]. by rewrite (list_pop_None _ Hp).
Qed.

(** The loop ends within one turn more than the thread has queued
    items, raising or not. *)
Lemma drain_enough_fuel n : ∀ t w k,
  length (default [] (task_queue w !! t)) = n →
  is_Some (drain (S n + k) t w).
Proof.
  induction n as [|n IH]; intros t w k Hn; simpl.
  - destruct (drain_turn t w) as [w' [[]|e]] eqn:Ht; [|done..].
    apply drain_turn_continue in Ht as (q & it & Hq).
    rewrite Hq in Hn; simpl in Hn. rewrite length_app in Hn; simpl in Hn. lia.
  - destruct (drain_turn t w) as [w' [[]|e]] eqn:Ht; [|done..].
    pose proof Ht as Hc.
    apply drain_turn_continue in Hc as (q & it & Hq).
    pose proof (drain_turn_queue t w q it Hq) as Hq'.
    rewrite Ht in Hq'; simpl in Hq'.
    apply (IH t w' k). rewrite Hq'; simpl.
    rewrite Hq in Hn; simpl in Hn. rewrite length_app in Hn; simpl in Hn. lia.
Qed.

(** A loop that ends normally leaves the queue of the thread empty. *)
Lemma drain_returned_empty fuel : ∀ t w w' u,
  drain fuel t w = Some (w', Returned u) →
  task_queue w' !! t = Some [].
Proof.
  induction fuel as [|fuel IH]; intros t w w' u; simpl; [done|].
  destruct (drain_turn t w) as [w1 [[]|e]] eqn:Ht.
  - apply IH.
  - intros [= <- _]. by apply drain_turn_exit in Ht as [-> ?].
  - done.
Qed.

(** On a queue of stripped items that the transport accepts, the loop
    sends the items last to first and empties the queue. *)
Lemma drain_sends_reversed q : ∀ t w k,
  task_queue w !! t = Some q →
  Forall stripped q →
  Forall (λ it, is_returned (Task_apply_async it)) q →
  drain (S (length q) + k) t w
  = Some (with_sent (sent w ++ reverse q) (with_queue t [] w), Returned tt).
Proof.
  induction q as [|it q IH] using rev_ind; intros t w k Hq Hs Hr.
  - simpl. rewrite (drain_turn_empty _ _ Hq).
    f_equal. f_equal. unfold with_sent, with_queue; simpl.
    rewrite app_nil_r, insert_id by done. by destruct w.
  - apply Forall_app in Hs as [Hs Hi]. apply Forall_app in Hr as [Hr Hri].
    apply Forall_inv in Hi, Hri.
    rewrite length_app; simpl.
    replace (length q + 1 + k) with (S (length q) + k) by lia.
    cbn [drain]. rewrite (drain_turn_stripped _ _ _ _ Hq Hi).
    destruct (Task_apply_async it) as [v|e]; [|done].
    rewrite IH; [|apply lookup_insert_eq|done..].
    f_equal. f_equal. unfold with_sent, with_queue; simpl.
    by rewrite insert_insert_eq, reverse_snoc, <- app_assoc.
Qed.

Lemma process_response_sends_reversed t response w q k :
  task_queue w !! t = Some q →
  Forall stripped q →
  Forall (λ it, is_returned (Task_apply_async it)) q →
  process_response (S (length q) + k) t response w
  = Some (with_sent (sent w ++ reverse q) (with_queue t [] w),
          Returned response).
Proof.
  intros Hq Hs Hr. unfold process_response.
  by rewrite (drain_sends_reversed q t w k Hq Hs Hr).
Qed.

Lemma process_response_returned fuel t response w w' v :
  process_response fuel t response w = Some (w', Returned v) →
  v = response ∧ task_queue w' !! t = Some [].
Proof.
  unfold process_response.
  destruct (drain fuel t w) as [[w1 [u|e]]|] eqn:Hd; [|done..].
  intros [= <- <-]. split; [done|]. by apply drain_returned_empty in Hd.
Qed.

(** ** Keywords without [after_transaction] *)

Lemma stripped_world_with_queue t q w :
  stripped_world w → Forall stripped q → stripped_world (with_queue t q w).
Proof.
  intros [Hs Hq] Hf. split; [done|]. intros t' q'; simpl.
  rewrite lookup_insert. case_decide; [by intros [= <-]|apply Hq].
Qed.

Lemma stripped_world_with_sent l w :
  stripped_world w → Forall stripped l → stripped_world (with_sent l w).
Proof. by intros [Hs Hq] Hf. Qed.

Lemma apply_async_stripped t cls args kwargs w :
  stripped_world w → stripped_world (apply_async t cls args kwargs w).1.
Proof.
  intros Hw. pose proof Hw as [Hs Hq].
  assert (stripped (mkItem cls args (delete after_transaction_key kwargs)))
    as Hi by apply lookup_delete_eq.
  unfold apply_async, dict_pop.
  destruct (truthy _).
  - unfold bind, queue_append.
    destruct (task_queue w !! t) as [q|] eqn:E; simpl; [|done].
    apply stripped_world_with_queue; [done|].
    apply Forall_app; split; [by eapply Hq|by apply Forall_singleton].
  - simpl. apply stripped_world_with_sent; [done|].
    apply Forall_app; split; [done|by apply Forall_singleton].
Qed.

Lemma drain_turn_stripped_world t w :
  stripped_world w → stripped_world (drain_turn t w).1.
Proof.
  intros Hw. unfold drain_turn.
  destruct (task_queue w !! t) as [q|] eqn:Hq; [|done].
  destruct (list_pop q) as [[q' it]|] eqn:Hp; [|done].
  apply list_pop_Some in Hp as ->.
  assert (stripped_world (with_queue t q' w)) as Hw1.
  { apply stripped_world_with_queue; [done|].
    destruct Hw as [_ Hw]. by apply Hw, Forall_app in Hq as [? _]. }
  destruct (call_keywords _ _ _) as [kw|e]; [|done].
  unfold bind.
  pose proof (apply_async_stripped t (item_cls it) (item_args it) kw _ Hw1).
  by destruct (apply_async _ _ _ _ _) as [? [?|?]].
Qed.

Lemma drain_stripped_world fuel : ∀ t w r,
  stripped_world w → drain fuel t w = Some r → stripped_world r.1.
Proof.
  induction fuel as [|fuel IH]; intros t w r Hw; simpl; [done|].
  pose proof (drain_turn_stripped_world t w Hw) as Hw'.
  destruct (drain_turn t w) as [w1 [[]|e]]; simpl in Hw'.
  - by apply IH.
  - by intros [= <-].
  - by intros [= <-].
Qed.

Lemma process_response_stripped_world fuel t response w r :
  stripped_world w →
  process_response fuel t response w = Some r →
  stripped_world r.1.
Proof.
  intros Hw. unfold process_response.
  destruct (drain fuel t w) as [[w1 o]|] eqn:Hd; [|done].
  apply (drain_stripped_world _ _ _ _ Hw) in Hd.
  by destruct o; intros [= <-].
Qed.

(** ** The hooks *)

(** Both hooks on a thread whose queue is set and empty do nothing. *)
Lemma hooks_on_empty_queue t w :
  task_queue w !! t = Some [] →
  process_exception t w = (w, Returned VNone) ∧
  ∀ fuel response,
    process_response (S fuel) t response w = Some (w, Returned response).
Proof.
  intros Hq. split.
  - unfold process_exception, with_queue.
    rewrite insert_id by done. by destruct w.
  - intros fuel response. unfold process_response; simpl.
    by rewrite drain_turn_empty.
Qed.

(** The failure hook never raises, set queue or not. *)
Lemma process_exception_returns t w :
  (process_exception t w).2 = Returned VNone ∧
  sent (process_exception t w).1 = sent w.
Proof. done. Qed.

(** C4: the failure hook sets the queue of the thread to the empty list
    and returns; the transport receives no call; a second call changes
    nothing more; and a success hook that runs afterwards finds nothing
    to send, so the discarded items never reach the transport. *)
Theorem process_exception_discards t w :
  let r := process_exception t w in
  r.2 = Returned VNone ∧
  sent r.1 = sent w ∧
  task_queue r.1 !! t = Some [] ∧
  process_exception t r.1 = r ∧
  ∀ fuel response,
    process_response (S fuel) t response r.1 = Some (r.1, Returned response).
Proof.
  simpl. split_and!; try done.
  - apply lookup_insert_eq.
  - unfold process_exception. by rewrite with_queue_twice.
  - intros fuel response. unfold process_response; simpl.
    rewrite drain_turn_empty; [done|]. apply lookup_insert_eq.
Qed.

(** C5: a turn of the drain on a queue whose last item is [it]: the
    item is submitted again with [after_transaction] set to [False],
    which [apply_async] reads as false; the transport receives [it] in
    that very turn, the queue of the thread is the popped queue and
    [it] is not put back, whether or not the transaction is still
    managed. *)
Theorem drain_turn_forces_dispatch t w q it :
  task_queue w !! t = Some (q ++ [it]) →
  stripped it →
  let forced := <[after_transaction_key := VBool false]> (item_kwargs it) in
  let r := drain_turn t w in
  call_keywords after_transaction_key (VBool false) (item_kwargs it)
    = Returned forced ∧
  after_transaction_of forced = VBool false ∧
  apply_async t (item_cls it) (item_args it) forced (with_queue t q w)
    = super_apply_async it (with_queue t q w) ∧
  sent r.1 = sent w ++ [it] ∧
  task_queue r.1 = <[t := q]> (task_queue w) ∧
  r.2 = match Task_apply_async it with
        | Returned _ => Returned true
        | Raised e => Raised e
        end.
Proof.
  intros Hq Hs forced r. subst forced r.
  rewrite (drain_turn_stripped t w q it Hq Hs); simpl.
  split_and!; try done.
  - by apply call_keywords_stripped.
  - unfold after_transaction_of. by rewrite lookup_insert_eq.
  - by apply apply_async_forced.
Qed.

(** C6: whenever the success hook returns, it returns the response it
    was given; and it does return, within one turn more than there are
    queued items, when the thread has its queue, the queued items are
    stripped and the transport accepts them. *)
Theorem process_response_passes_response t response w :
  (∀ fuel w' v,
     process_response fuel t response w = Some (w', Returned v) →
     v = response) ∧
  (∀ q k,
     task_queue w !! t = Some q →
     Forall stripped q →
     Forall (λ it, is_returned (Task_apply_async it)) q →
     ∃ w', process_response (S (length q) + k) t response w
           = Some (w', Returned response)).
Proof.
  split.
  - intros fuel w' v H. by apply process_response_returned in H as [? _].
  - intros q k Hq Hs Hr. eexists.
    by apply process_response_sends_reversed.
Qed.

(** C8: after [process_exception] has returned the queue of the thread
    is empty; after [process_response] has returned the queue of the
    thread is empty; and [process_response] does return when the thread
    has its queue, the queued items are stripped and the transport
    accepts them. *)
Theorem queue_empty_after_resolution t w :
  task_queue (process_exception t w).1 !! t = Some [] ∧
  (∀ fuel response w' v,
     process_response fuel t response w = Some (w', Returned v) →
     task_queue w' !! t = Some []) ∧
  (∀ q k response,
     task_queue w !! t = Some q →
     Forall stripped q →
     Forall (λ it, is_returned (Task_apply_async it)) q →
     ∃ w', process_response (S (length q) + k) t response w
           = Some (w', Returned response) ∧
           task_queue w' !! t = Some []).
Proof.
  split_and!.
  - apply lookup_insert_eq.
  - intros fuel response w' v H.
    by apply process_response_returned in H as [_ ?].
  - intros q k response Hq Hs Hr. eexists. split.
    + by apply process_response_sends_reversed.
    + apply lookup_insert_eq.
Qed.

(** C9: the loop of [process_response] ends, by a return or a raise,
    within one turn more than the thread has queued items; each turn
    that pops an item leaves the popped queue behind, the call it makes
    adding nothing back; and a loop that ends normally ends on the empty
    queue. *)
Theorem drain_terminates t w :
  (∀ k, is_Some (drain (S (length (default [] (task_queue w !! t))) + k) t w)) ∧
  (∀ q it,
     task_queue w !! t = Some (q ++ [it]) →
     task_queue (drain_turn t w).1 !! t = Some q ∧
     length q < length (q ++ [it])) ∧
  (∀ fuel w' u,
     drain fuel t w = Some (w', Returned u) → task_queue w' !! t = Some []).
Proof.
  split_and!.
  - intros k. by apply drain_enough_fuel.
  - intros q it Hq. split; [by apply (drain_turn_queue t w q it)|].
    rewrite length_app; simpl; lia.
  - intros fuel w' u. apply drain_returned_empty.
Qed.

(** C10: [apply_async] builds the item from the keywords without
    [after_transaction]; that item is the only thing the call can add,
    to the calls of the transport or to the queue of the thread; hence
    [apply_async] and [process_response] keep every queued item and
    every call received by the transport free of the key. *)
Theorem apply_async_strips_after_transaction t cls args kwargs w :
  let it := mkItem cls args (delete after_transaction_key kwargs) in
  let w' := (apply_async t cls args kwargs w).1 in
  stripped it ∧
  (sent w' = sent w ∨ sent w' = sent w ++ [it]) ∧
  (task_queue w' = task_queue w ∨
   ∃ q, task_queue w !! t = Some q ∧
        task_queue w' = <[t := q ++ [it]]> (task_queue w)) ∧
  (stripped_world w → stripped_world w') ∧
  (∀ fuel response r,
     stripped_world w →
     process_response fuel t response w = Some r →
     stripped_world r.1).
Proof.
  intros it w'. subst it w'. split_and!.
  - apply lookup_delete_eq.
  - unfold apply_async, dict_pop. destruct (truthy _); [|by right].
    left. unfold bind, queue_append.
    by destruct (task_queue w !! t).
  - unfold apply_async, dict_pop. destruct (truthy _); [|by left].
    unfold bind, queue_append.
    destruct (task_queue w !! t) as [q|] eqn:E; [|by left].
    right. by exists q.
  - apply apply_async_stripped.
  - intros fuel response r. apply process_response_stripped_world.
Qed.

(** ** Threads *)

Lemma apply_async_other_thread t t' cls args kwargs w :
  t ≠ t' →
  task_queue (apply_async t cls args kwargs w).1 !! t' = task_queue w !! t'.
Proof.
  intros Hne. unfold apply_async, dict_pop.
  destruct (truthy _); [|done].
  unfold bind, queue_append.
  destruct (task_queue w !! t); simpl; [|done].
  by rewrite lookup_insert_ne.
Qed.

Lemma drain_turn_other_thread t t' w :
  t ≠ t' →
  task_queue (drain_turn t w).1 !! t' = task_queue w !! t'.
Proof.
  intros Hne. unfold drain_turn.
  destruct (task_queue w !! t) as [q|]; [|done].
  destruct (list_pop q) as [[q' it]|]; [|done].
  destruct (call_keywords _ _ _) as [kw|e]; simpl.
  - unfold bind.
    pose proof (apply_async_other_thread t t' (item_cls it) (item_args it)
                  kw (with_queue t q' w) Hne) as H.
    destruct (apply_async _ _ _ _ _) as [w' [v|e]]; simpl in *;
      by rewrite H, lookup_insert_ne.
  - by rewrite lookup_insert_ne.
Qed.

Lemma drain_other_thread fuel : ∀ t t' w r,
  t ≠ t' →
  drain fuel t w = Some r →
  task_queue r.1 !! t' = task_queue w !! t'.
Proof.
  induction fuel as [|fuel IH]; intros t t' w r Hne; simpl; [done|].
  pose proof (drain_turn_other_thread t t' w Hne) as Ht.
  destruct (drain_turn t w) as [w1 [[]|e]]; simpl in Ht.
  - intros Hd. by rewrite (IH _ _ _ _ Hne Hd).
  - by intros [= <-].
  - by intros [= <-].
Qed.

(** X1: whatever [apply_async], [process_exception] and
    [process_response] do in thread [t], the queue of another thread
    [t'], set or unset, is what it was. *)
Theorem other_thread_queue_untouched t t' w :
  t ≠ t' →
  (∀ cls args kwargs,
     task_queue (apply_async t cls args kwargs w).1 !! t'
     = task_queue w !! t') ∧
  task_queue (process_exception t w).1 !! t' = task_queue w !! t' ∧
  (∀ fuel response r,
     process_response fuel t response w = Some r →
     task_queue r.1 !! t' = task_queue w !! t').
Proof.
  intros Hne. split_and!.
  - intros cls args kwargs. by apply apply_async_other_thread.
  - simpl. by rewrite lookup_insert_ne.
  - intros fuel response r. unfold process_response.
    destruct (drain fuel t w) as [[w1 o]|] eqn:Hd; [|done].
    apply (drain_other_thread _ _ _ _ _ Hne) in Hd.
    by destruct o; intros [= <-].
Qed.

(** X2: a submission that is to be deferred, made in a thread that has
    not set [task_queue]: [apply_async] raises [AttributeError]; nothing
    is queued and the transport receives no call. *)
Theorem apply_async_defer_unset_raises t cls args kwargs w :
  truthy (after_transaction_of kwargs) = true →
  is_managed t w = true →
  task_queue w !! t = None →
  apply_async t cls args kwargs w = (w, Raised AttributeError).
Proof.
  intros Ha Hm Hq. unfold apply_async, dict_pop.
  fold (after_transaction_of kwargs).
  rewrite truthy_py_and, Ha, Hm; simpl.
  unfold bind, queue_append. by rewrite Hq.
Qed.

Lemma dom_with_queue_set t q q' w :
  task_queue w !! t = Some q →
  dom (task_queue (with_queue t q' w)) = dom (task_queue w).
Proof.
  intros Hq. simpl. rewrite dom_insert_L.
  apply elem_of_dom_2 in Hq. apply subseteq_union_1_L.
  by apply singleton_subseteq_l.
Qed.

Lemma apply_async_dom t cls args kwargs w :
  dom (task_queue (apply_async t cls args kwargs w).1) = dom (task_queue w).
Proof.
  unfold apply_async, dict_pop. destruct (truthy _); [|done].
  unfold bind, queue_append.
  destruct (task_queue w !! t) as [q|] eqn:Hq; [|done].
  by apply (dom_with_queue_set t q).
Qed.

Lemma drain_turn_dom t w :
  dom (task_queue (drain_turn t w).1) = dom (task_queue w).
Proof.
  unfold drain_turn.
  destruct (task_queue w !! t) as [q|] eqn:Hq; [|done].
  destruct (list_pop q) as [[q' it]|]; [|done].
  pose proof (dom_with_queue_set t q q' w Hq) as Hd.
  destruct (call_keywords _ _ _) as [kw|e]; [|done].
  unfold bind.
  pose proof (apply_async_dom t (item_cls it) (item_args it) kw
                (with_queue t q' w)) as H.
  destruct (apply_async _ _ _ _ _) as [w' [v|e]]; simpl in *; congruence.
Qed.

Lemma drain_dom fuel : ∀ t w r,
  drain fuel t w = Some r → dom (task_queue r.1) = dom (task_queue w).
Proof.
  induction fuel as [|fuel IH]; intros t w r; simpl; [done|].
  pose proof (drain_turn_dom t w) as Ht.
  destruct (drain_turn t w) as [w1 [[]|e]]; simpl in Ht.
  - intros Hd. by rewrite (IH _ _ _ Hd).
  - by intros [= <-].
  - by intros [= <-].
Qed.

(** X4: the threads that have [task_queue] set are the same before and
    after [apply_async] and [process_response]; [process_exception] is
    the one operation that sets it, for the calling thread only. *)
Theorem queue_set_by_process_exception_only t w :
  (∀ cls args kwargs,
     dom (task_queue (apply_async t cls args kwargs w).1)
     = dom (task_queue w)) ∧
  (∀ fuel response r,
     process_response fuel t response w = Some r →
     dom (task_queue r.1) = dom (task_queue w)) ∧
  dom (task_queue (process_exception t w).1) = {[ t ]} ∪ dom (task_queue w).
Proof.
  split_and!.
  - intros cls args kwargs. apply apply_async_dom.
  - intros fuel response r. unfold process_response.
    destruct (drain fuel t w) as [[w1 o]|] eqn:Hd; [|done].
    apply drain_dom in Hd.
    by destruct o; intros [= <-].
  - simpl. apply dom_insert_L.
Qed.

(** ** Flows *)

Lemma with_queue_same t q w :
  task_queue w !! t = Some q → with_queue t q w = w.
Proof.
  intros Hq. unfold with_queue. rewrite insert_id by done. by destruct w.
Qed.

Lemma submit_each_defers calls : ∀ t w q,
  task_queue w !! t = Some q →
  is_managed t w = true →
  Forall (λ c, truthy (after_transaction_of (item_kwargs c)) = true) calls →
  submit_each t calls w
  = (with_queue t (q ++ map strip calls) w, Returned tt).
Proof.
  induction calls as [|c calls IH]; intros t w q Hq Hm Hc; simpl.
  - by rewrite app_nil_r, with_queue_same.
  - apply Forall_cons in Hc as [Ha Hc]. unfold bind at 1.
    rewrite (apply_async_defer_eq _ _ _ _ _ q Ha Hm Hq).
    rewrite (IH t _ (q ++ [strip c])); [|apply lookup_insert_eq|done..].
    by rewrite with_queue_twice, <- app_assoc.
Qed.

(** X5: a view that defers the calls [c1 .. cn] in a thread whose queue
    holds [q], followed by the success hook: the view leaves the queue
    [q ++ [c1 .. cn]], each call without its [after_transaction]
    keyword, and the hook, when the transport accepts the items, sends
    [cn .. c1] and then the items of [q] last to first, and leaves the
    queue empty. *)
Theorem deferred_flow_sent_in_reverse t w q calls k response :
  task_queue w !! t = Some q →
  is_managed t w = true →
  Forall (λ c, truthy (after_transaction_of (item_kwargs c)) = true) calls →
  Forall stripped q →
  Forall (λ it, is_returned (Task_apply_async it)) (q ++ map strip calls) →
  let r := submit_each t calls w in
  r = (with_queue t (q ++ map strip calls) w, Returned tt) ∧
  process_response (S (length q + length calls) + k) t response r.1
  = Some (with_sent (sent w ++ reverse (map strip calls) ++ reverse q)
            (with_queue t [] w),
          Returned response).
Proof.
  intros Hq Hm Hc Hs Hr r. subst r.
  rewrite (submit_each_defers calls t w q Hq Hm Hc). split; [done|].
  cbn [fst].
  replace (length q + length calls)
    with (length (q ++ map strip calls))
    by (by rewrite length_app, length_map).
  rewrite (process_response_sends_reversed t response _
             (q ++ map strip calls) k).
  - by rewrite with_queue_twice, reverse_app.
  - apply lookup_insert_eq.
  - apply Forall_app; split; [done|].
    apply Forall_map, Forall_true. intros c. apply lookup_delete_eq.
  - done.
Qed.

Lemma drain_transport_failure q2 : ∀ t w q1 bad e k,
  task_queue w !! t = Some (q1 ++ bad :: q2) →
  Forall stripped (bad :: q2) →
  Forall (λ it, is_returned (Task_apply_async it)) q2 →
  Task_apply_async bad = Raised e →
  drain (S (length q2) + k) t w
  = Some (with_sent (sent w ++ reverse q2 ++ [bad]) (with_queue t q1 w),
          Raised e).
Proof.
  induction q2 as [|it q2 IH] using rev_ind; intros t w q1 bad e k Hq Hs Hr He.
  - simpl. apply Forall_inv in Hs.
    rewrite (drain_turn_stripped t w q1 bad Hq Hs), He. done.
  - apply Forall_cons in Hs as [Hb Hs].
    apply Forall_app in Hs as [Hs Hi]. apply Forall_inv in Hi.
    apply Forall_app in Hr as [Hr Hri]. apply Forall_inv in Hri.
    rewrite length_app; simpl.
    replace (length q2 + 1 + k) with (S (length q2) + k) by lia.
    cbn [drain].
    rewrite (drain_turn_stripped t w (q1 ++ bad :: q2) it);
      [|by rewrite Hq, <- app_assoc|done].
    destruct (Task_apply_async it) as [v|e']; [|done].
    rewrite (IH t _ q1 bad e k); [|apply lookup_insert_eq|by constructor|done..].
    f_equal. f_equal. unfold with_sent, with_queue; simpl.
    by rewrite insert_insert_eq, reverse_snoc, <- app_assoc.
Qed.

(** X6: the transport raises on the item [bad] and accepts the items
    [q2] queued after it: the success hook sends [q2] last to first,
    then [bad], and raises what the transport raised in place of
    returning the response; [bad] is gone from the queue and the items
    [q1] queued before it stay queued, unsent. *)
Theorem process_response_transport_failure t w q1 bad q2 e k response :
  task_queue w !! t = Some (q1 ++ bad :: q2) →
  Forall stripped (bad :: q2) →
  Forall (λ it, is_returned (Task_apply_async it)) q2 →
  Task_apply_async bad = Raised e →
  ∃ w', process_response (S (length q2) + k) t response w
        = Some (w', Raised e) ∧
        sent w' = sent w ++ reverse q2 ++ [bad] ∧
        task_queue w' !! t = Some q1.
Proof.
  intros Hq Hs Hr He. eexists. unfold process_response.
  rewrite (drain_transport_failure q2 t w q1 bad e k Hq Hs Hr He).
  split_and!; [done..|]. apply lookup_insert_eq.
Qed.

Lemma drain_conserves fuel : ∀ t w q r,
  task_queue w !! t = Some q →
  Forall stripped q →
  drain fuel t w = Some r →
  ∃ q' l, q = q' ++ l ∧
          task_queue r.1 !! t = Some q' ∧
          sent r.1 = sent w ++ reverse l ∧
          match r.2 with
          | Returned _ => q' = []
          | Raised e => ∃ it l', l = it :: l' ∧ Task_apply_async it = Raised e
          end.
Proof.
  induction fuel as [|fuel IH]; intros t w q r Hq Hs; simpl; [done|].
  destruct q as [|it q _] using rev_ind.
  - rewrite (drain_turn_empty t w Hq). intros [= <-].
    exists [], []; simpl. by rewrite app_nil_r.
  - apply Forall_app in Hs as [Hs Hi]. apply Forall_inv in Hi.
    rewrite (drain_turn_stripped t w q it Hq Hi).
    destruct (Task_apply_async it) as [v|e] eqn:Ht.
    + intros Hd.
      apply (IH t _ q r) in Hd as (q' & l & -> & Hq' & Hsent & Ho);
        [|apply lookup_insert_eq|done].
      exists q', (l ++ [it]). split_and!; [by rewrite app_assoc|done|..].
      * rewrite Hsent, reverse_snoc; simpl. by rewrite <- app_assoc.
      * destruct (r.2) as [u|e]; [done|].
        destruct Ho as (it' & l' & -> & He). by exists it', (l' ++ [it]).
    + intros [= <-]. exists q, [it]; simpl.
      split_and!; [done|apply lookup_insert_eq|done|by exists it, []].
Qed.

(** X7: whatever the transport answers, the success hook loses and
    repeats nothing: when it ends, returning or raising, the queue it
    found splits into the items still queued and the items sent, and
    those were sent once each, last to first.  When it returns nothing
    is still queued; when it raises, the exception is the one the
    transport raised on the item it was sent last. *)
Theorem process_response_conserves_items t w q fuel response r :
  task_queue w !! t = Some q →
  Forall stripped q →
  process_response fuel t response w = Some r →
  ∃ q' l, q = q' ++ l ∧
          task_queue r.1 !! t = Some q' ∧
          sent r.1 = sent w ++ reverse l ∧
          match r.2 with
          | Returned v => q' = [] ∧ v = response
          | Raised e => ∃ it l', l = it :: l' ∧ Task_apply_async it = Raised e
          end.
Proof.
  intros Hq Hs. unfold process_response.
  destruct (drain fuel t w) as [[w1 o]|] eqn:Hd; [|done].
  apply (drain_conserves _ _ _ q _ Hq Hs) in Hd
    as (q' & l & -> & Hq' & Hsent & Ho). simpl in *.
  destruct o as [u|e]; intros [= <-]; exists q', l; by split_and!.
Qed.

(** X8: a submission deferred in a thread whose queue is empty and then
    drained by the success hook leaves the world exactly as the same
    submission made with [after_transaction=False] would have, whatever
    the transport answers: the transport has received the same call,
    with the same keywords, and the queue is empty.  The hook returns
    the response when that submission would have returned, and raises
    what it would have raised. *)
Theorem deferred_then_drained_as_immediate t cls args kwargs w k response :
  task_queue w !! t = Some [] →
  is_managed t w = true →
  truthy (after_transaction_of kwargs) = true →
  let now :=
    apply_async t cls args
      (<[after_transaction_key := VBool false]> kwargs) w in
  process_response (2 + k) t response (apply_async t cls args kwargs w).1
  = Some (now.1,
          match now.2 with
          | Returned _ => Returned response
          | Raised e => Raised e
          end).
Proof.
  intros Hq Hm Ha now. subst now.
  rewrite (apply_async_defer_eq _ _ _ _ _ [] Ha Hm Hq); cbn [fst app].
  rewrite apply_async_immediate_eq
    by (unfold after_transaction_of; by rewrite lookup_insert_eq).
  rewrite delete_insert_eq.
  set (it := mkItem cls args (delete after_transaction_key kwargs)).
  assert (stripped it) as Hs by apply lookup_delete_eq.
  unfold process_response, super_apply_async. cbn [drain Nat.add fst snd].
  rewrite (drain_turn_stripped t _ [] it); [|apply lookup_insert_eq|done].
  rewrite with_queue_twice, (with_queue_same t [] w Hq).
  destruct (Task_apply_async it) as [v|e]; [|done].
  destruct k; cbn [drain]; by rewrite drain_turn_empty.
Qed.

End PostCommit.

(** ** The protocol on concrete flows *)

(** C1: two tasks deferred in the order X, Y by the thread that imported
    the module, then the success hook.  The queue holds X before Y, and
    the hook, popping from the end, sends Y first and X second: each
    item once, in the reverse of the submission order. *)
Theorem process_response_sends_last_first :
  let w1 := (apply_async transport_ok 0 "X" [VInt 1] ∅ world_fresh).1 in
  let w2 := (apply_async transport_ok 0 "Y" [VInt 2] ∅ w1).1 in
  task_queue w2 !! 0 = Some [itemX; itemY] ∧
  sent w2 = [] ∧
  ∃ w3, process_response transport_ok 3 0 (VStr "response") w2
        = Some (w3, Returned (VStr "response")) ∧
        sent w3 = [itemY; itemX] ∧
        task_queue w3 !! 0 = Some [].
Proof.
  split_and!; [reflexivity..|].
  eexists. split_and!; [vm_compute; reflexivity|reflexivity..].
Qed.

(** C7: thread 0 has imported the module, thread 1 has not set
    [task_queue]; the success hook called in thread 1 raises
    [AttributeError] at the test of its loop and returns no response. *)
Theorem process_response_unset_queue_raises :
  task_queue world_fresh !! 1 = None ∧
  ∀ fuel response,
    process_response transport_ok (S fuel) 1 response world_fresh
    = Some (world_fresh, Raised AttributeError).
Proof.
  split; [reflexivity|]. intros fuel response.
  unfold process_response; simpl. by rewrite drain_turn_unset.
Qed.

(** C2: thread 0 has imported the module; thread 1, inside a managed
    transaction, submits a task with no [after_transaction] keyword, so
    both conditions of deferral hold.  [apply_async] raises
    [AttributeError]: the item is appended to no queue and the call
    returns nothing. *)
Theorem apply_async_defer_other_thread_raises :
  truthy (after_transaction_of kwargs_countdown) = true ∧
  is_managed 1 world_shared = true ∧
  task_queue world_shared !! 1 = None ∧
  apply_async transport_ok 1 "X" [VInt 1] kwargs_countdown world_shared
  = (world_shared, Raised AttributeError).
Proof. split_and!; vm_compute; reflexivity. Qed.

Lemma apply_async_defers_witness :
  let kwargs := <[after_transaction_key := VInt 1]> kwargs_countdown in
  let it := mkItem "X" [VInt 1] (delete after_transaction_key kwargs) in
  let r := apply_async transport_ok 0 "X" [VInt 1] kwargs world_fresh in
  task_queue r.1 = <[0 := [] ++ [it]]> (task_queue world_fresh) ∧
  sent r.1 = sent world_fresh ∧
  r.2 = Returned VNone.
Proof.
  apply (apply_async_defers transport_ok 0 "X" [VInt 1]
           (<[after_transaction_key := VInt 1]> kwargs_countdown)
           world_fresh []); reflexivity.
Defined.

Lemma apply_async_immediate_witness :
  let kwargs := <[after_transaction_key := VBool false]> kwargs_countdown in
  let it := mkItem "Y" [VInt 2] (delete after_transaction_key kwargs) in
  let r := apply_async transport_flaky 0 "Y" [VInt 2] kwargs world_two in
  sent r.1 = sent world_two ++ [it] ∧
  task_queue r.1 = task_queue world_two ∧
  r.2 = transport_flaky it.
Proof.
  apply (apply_async_immediate transport_flaky 0 "Y" [VInt 2]
           (<[after_transaction_key := VBool false]> kwargs_countdown)
           world_two).
  left. reflexivity.
Defined.

Lemma drain_turn_forces_dispatch_witness :
  is_managed 0 world_two = true ∧
  sent (drain_turn transport_ok 0 world_two).1 = sent world_two ++ [itemY] ∧
  task_queue (drain_turn transport_ok 0 world_two).1
    = <[0 := [itemX]]> (task_queue world_two).
Proof.
  split; [reflexivity|].
  destruct (drain_turn_forces_dispatch transport_ok 0 world_two [itemX] itemY)
    as (_ & _ & _ & Hsent & Hqueue & _); [reflexivity..|].
  exact (conj Hsent Hqueue).
Defined.

Lemma process_response_passes_response_witness :
  ∃ w', process_response transport_ok (S (length [itemX; itemY]) + 0) 0
          (VStr "response") world_two
        = Some (w', Returned (VStr "response")).
Proof.
  apply (proj2 (process_response_passes_response transport_ok 0
                  (VStr "response") world_two) [itemX; itemY] 0);
    [reflexivity|repeat constructor..].
Defined.

Lemma queue_empty_after_resolution_witness :
  ∃ w', process_response transport_ok (S (length [itemX; itemY]) + 0) 0
          VNone world_two
        = Some (w', Returned VNone) ∧
        task_queue w' !! 0 = Some [].
Proof.
  apply (proj2 (proj2 (queue_empty_after_resolution transport_ok 0 world_two))
           [itemX; itemY] 0 VNone);
    [reflexivity|repeat constructor..].
Defined.

Lemma drain_terminates_witness :
  task_queue (drain_turn transport_flaky 0 world_two).1 !! 0 = Some [itemX] ∧
  length [itemX] < length ([itemX] ++ [itemY]).
Proof.
  apply (proj1 (proj2 (drain_terminates transport_flaky 0 world_two))
           [itemX] itemY).
  reflexivity.
Defined.

Lemma apply_async_strips_after_transaction_witness :
  stripped_world
    (apply_async transport_ok 0 "X" [VInt 1]
       (<[after_transaction_key := VBool true]> kwargs_countdown)
       world_two).1.
Proof.
  destruct (apply_async_strips_after_transaction transport_ok 0 "X" [VInt 1]
              (<[after_transaction_key := VBool true]> kwargs_countdown)
              world_two) as (_ & _ & _ & Hkeep & _).
  apply Hkeep, (bool_decide_unpack _). vm_compute. exact I.
Defined.

(** ** The decorator *)

(** X9: [task] calls [base_task] with the positional arguments of the
    call and with [base] set to [PostCommitTask] unless the call gives
    [base] itself; every other keyword is the caller's.  A call that
    gives its own [base] reaches [base_task] unchanged. *)
Theorem task_base_keyword {R} (base_task : list value → gmap string value → R)
    (args : list value) (kwargs : gmap string value) :
  task base_task args kwargs = base_task args (task_keywords kwargs) ∧
  task_keywords kwargs !! "base"
    = Some (default (VStr "PostCommitTask") (kwargs !! "base")) ∧
  (∀ k, k ≠ "base" → task_keywords kwargs !! k = kwargs !! k) ∧
  (is_Some (kwargs !! "base") →
   task base_task args kwargs = base_task args kwargs).
Proof.
  assert (∀ k, k ≠ "base" → task_keywords kwargs !! k = kwargs !! k) as Hother.
  { intros k Hk. unfold task_keywords.
    rewrite lookup_union, lookup_singleton_ne by done.
    by destruct (kwargs !! k). }
  assert (task_keywords kwargs !! "base"
          = Some (default (VStr "PostCommitTask") (kwargs !! "base"))) as Hbase.
  { unfold task_keywords. rewrite lookup_union, lookup_singleton_eq.
    by destruct (kwargs !! "base"). }
  split_and!; [done..|].
  intros [b Hb]. unfold task. f_equal. apply map_eq. intros k.
  destruct (decide (k = "base")) as [->|Hk]; [|by apply Hother].
  by rewrite Hbase, Hb.
Qed.

(** ** Instances *)

Lemma other_thread_queue_untouched_witness :
  task_queue (process_exception 1 world_two).1 !! 0 = task_queue world_two !! 0.
Proof.
  destruct (other_thread_queue_untouched transport_ok 1 0 world_two)
    as (_ & Hexc & _); [lia|exact Hexc].
Defined.

Lemma apply_async_defer_unset_raises_witness :
  apply_async transport_ok 1 "X" [VInt 1] kwargs_countdown world_shared
  = (world_shared, Raised AttributeError).
Proof.
  apply (apply_async_defer_unset_raises transport_ok 1 "X" [VInt 1]
           kwargs_countdown world_shared); reflexivity.
Defined.

Lemma queue_set_by_process_exception_only_witness :
  dom (task_queue (with_sent [itemY; itemX] (with_queue 0 [] world_two)))
  = dom (task_queue world_two).
Proof.
  destruct (queue_set_by_process_exception_only transport_ok 0 world_two)
    as (_ & H & _).
  apply (H 3 VNone (with_sent [itemY; itemX] (with_queue 0 [] world_two),
                    Returned VNone)).
  vm_compute. reflexivity.
Defined.

Lemma deferred_flow_sent_in_reverse_witness :
  process_response transport_ok (S (length [itemX] + length [itemY]) + 0) 0
    (VStr "response")
    (submit_each transport_ok 0
       [mkItem "Y" [VInt 2] {[ after_transaction_key := VBool true ]}]
       (with_queue 0 [itemX] world_fresh)).1
  = Some (with_sent
            (sent (with_queue 0 [itemX] world_fresh)
             ++ reverse (map strip
                  [mkItem "Y" [VInt 2] {[ after_transaction_key := VBool true ]}])
             ++ reverse [itemX])
            (with_queue 0 [] (with_queue 0 [itemX] world_fresh)),
          Returned (VStr "response")).
Proof.
  apply (deferred_flow_sent_in_reverse transport_ok 0
           (with_queue 0 [itemX] world_fresh) [itemX]
           [mkItem "Y" [VInt 2] {[ after_transaction_key := VBool true ]}]
           0 (VStr "response"));
    [reflexivity|reflexivity|repeat constructor..].
Defined.

Lemma process_response_transport_failure_witness :
  ∃ w', process_response transport_flaky (S (length [itemY]) + 0) 0 VNone
          world_broken
        = Some (w', Raised (TransportError "connection refused")) ∧
        sent w' = sent world_broken ++ reverse [itemY] ++ [itemBroken] ∧
        task_queue w' !! 0 = Some [itemX].
Proof.
  apply (process_response_transport_failure transport_flaky 0 world_broken
           [itemX] itemBroken [itemY]);
    [reflexivity|repeat constructor..|reflexivity].
Defined.

Lemma process_response_conserves_items_witness :
  ∃ q' l, [itemX; itemBroken; itemY] = q' ++ l ∧
          task_queue (with_sent [itemY; itemBroken]
                        (with_queue 0 [itemX] world_broken)) !! 0 = Some q' ∧
          [itemY; itemBroken] = sent world_broken ++ reverse l ∧
          ∃ it l', l = it :: l' ∧
                   transport_flaky it
                   = Raised (TransportError "connection refused").
Proof.
  apply (process_response_conserves_items transport_flaky 0 world_broken
           [itemX; itemBroken; itemY] 5 VNone
           (with_sent [itemY; itemBroken] (with_queue 0 [itemX] world_broken),
            Raised (TransportError "connection refused")));
    [reflexivity|repeat constructor|vm_compute; reflexivity].
Defined.

Lemma deferred_then_drained_as_immediate_witness :
  process_response transport_flaky (2 + 0) 0 VNone
    (apply_async transport_flaky 0 "broken" [] kwargs_countdown world_fresh).1
  = Some ((apply_async transport_flaky 0 "broken" []
             (<[after_transaction_key := VBool false]> kwargs_countdown)
             world_fresh).1,
          match (apply_async transport_flaky 0 "broken" []
                   (<[after_transaction_key := VBool false]> kwargs_countdown)
                   world_fresh).2 with
          | Returned _ => Returned VNone
          | Raised e => Raised e
          end).
Proof.
  apply (deferred_then_drained_as_immediate transport_flaky 0 "broken" []
           kwargs_countdown world_fresh 0 VNone); reflexivity.
Defined.

Lemma task_base_keyword_witness :
  task (λ args kwargs, kwargs !! "base") []
    {[ "base" := VStr "OtherTask" ]}
  = Some (VStr "OtherTask").
Proof.
  destruct (task_base_keyword (λ _ kwargs, kwargs !! "base") []
              {[ "base" := VStr "OtherTask" ]}) as (_ & _ & _ & H).
  rewrite H; [reflexivity|]. eexists. reflexivity.
Defined.
